(** * vector_cypher_rag: retrieval query and script, embedded and verified

    The repository is one Python script, [vector_cypher_rag.py].  It holds two
    pieces of code:

    - a Cypher query, [retrieval_query], which the retriever appends to the
      vector-index lookup of the [neo4j_graphrag] library; its meaning over a
      property graph is embedded in [Module Cypher];
    - a straight-line sequence of calls into external libraries (driver,
      embedder, retriever, LLM, pipeline, [print], [close]); its control flow,
      with Python's "an uncaught exception ends the script", is embedded in
      [Module Script].

    Numbers are rationals ([Q]): ratings and scores are floats in the
    database, and the properties below only use their order and the fact
    that an average of at least one number is a number. *)

From Stdlib Require Import List String Bool Arith ZArith QArith Lia.
From Stdlib Require Import Sorting.Sorted Sorting.Permutation Sorting.Mergesort.
From Stdlib Require Import Structures.Orders.
Import ListNotations.

#[local] Open Scope string_scope.
#[local] Open Scope nat_scope.
#[local] Open Scope list_scope.
#[local] Set Warnings "-register-all".

(** An exception is identified by the name of its class. *)
Definition exn := string.

(** A call either raises or returns. *)
Definition result (A : Type) : Type := (exn + A)%type.

(* ================================================================== *)
(** * The property graph the query runs on *)

Module Graph.

Definition node_id := nat.

(** Nodes of the movie graph are heterogeneous: a Movie carries [title]
    and [plot], a Genre or a Person carries [name].  A property a node
    does not have reads as null in Cypher, hence the options. *)
Record node := {
  labels : list string;
  title : option string;
  plot : option string;
  name : option string
}.

(** A relationship has a type and two ends; only RATED carries [rating]. *)
Record relationship := {
  rtype : string;
  rstart : node_id;
  rend : node_id;
  rating : option Q
}.

Record graph := {
  nodes : list node;
  rels : list relationship
}.

Definition has_label (G : graph) (n : node_id) (l : string) : bool :=
  match nth_error (nodes G) n with
  | Some nd => existsb (String.eqb l) (labels nd)
  | None => false
  end.

Definition has_name (G : graph) (n : node_id) : bool :=
  match nth_error (nodes G) n with
  | Some nd => match name nd with Some _ => true | None => false end
  | None => false
  end.


(** Second part: IN_GENRE points to a named node; ACTED_IN and DIRECTED
    go from a named node that is not a Movie to a Movie. *)
Definition names_schema (G : graph) : bool :=
  forallb
    (fun r =>
       if (rtype r =? "IN_GENRE")%string then has_name G (rend r)
       else if (rtype r =? "ACTED_IN")%string || (rtype r =? "DIRECTED")%string
            then has_name G (rstart r)
                 && negb (has_label G (rstart r) "Movie")
                 && has_label G (rend r) "Movie"
            else true)
    (rels G).

End Graph.

(* ================================================================== *)
(** * The retrieval query *)

Module Cypher.
Import Graph.

(** Values a returned column can hold. *)
Inductive value :=
| VNull
| VStr (s : string)
| VNum (q : Q)
| VList (l : list value).

(** A returned record: column names with their values, in RETURN order. *)
Definition Row := list (string * value).

Fixpoint lookup (c : string) (row : Row) : option value :=
  match row with
  | [] => None
  | (c', v) :: row' => if (c =? c')%string then Some v else lookup c row'
  end.

(** Equivalence of values, as grouping uses it: null is equivalent to
    null, numbers are compared by value. *)
Fixpoint value_eqb (a b : value) : bool :=
  match a, b with
  | VNull, VNull => true
  | VStr s, VStr t => (s =? t)%string
  | VNum p, VNum q => Qeq_bool p q
  | VList l, VList m =>
      (fix all2 (l m : list value) : bool :=
         match l, m with
         | [], [] => true
         | x :: l', y :: m' => value_eqb x y && all2 l' m'
         | _, _ => false
         end) l m
  | _, _ => false
  end.

Fixpoint row_eqb (a b : Row) : bool :=
  match a, b with
  | [], [] => true
  | (c, v) :: a', (d, w) :: b' => (c =? d)%string && value_eqb v w && row_eqb a' b'
  | _, _ => false
  end.

(** [n.p]: the property, or null when the node lacks it. *)
Definition prop (G : graph) (n : node_id) (p : node -> option string) : value :=
  match nth_error (nodes G) n with
  | Some nd => match p nd with Some s => VStr s | None => VNull end
  | None => VNull
  end.

(** A candidate is what the vector index yields: [node, score]. *)
Definition candidate := (node_id * Q)%type.

(** The variables bound after the MATCH clause. *)
Record binding := {
  b_node : node_id;
  b_score : Q;
  b_r : relationship
}.

(** [MATCH (node)<-[r:RATED]-()]: one binding for each RATED relationship
    that ends at the candidate node. *)
Definition is_rated_into (n : node_id) (r : relationship) : bool :=
  (rtype r =? "RATED")%string && (rend r =? n).

Definition match_rated (G : graph) (c : candidate) : list binding :=
  map (fun r => {| b_node := fst c; b_score := snd c; b_r := r |})
      (filter (is_rated_into (fst c)) (rels G)).

(** [collect { MATCH (node)-[:IN_GENRE]->(g) RETURN g.name }] *)
Definition genres_of (G : graph) (n : node_id) : value :=
  VList (map (fun r => prop G (rend r) name)
             (filter (fun r => (rtype r =? "IN_GENRE")%string && (rstart r =? n))
                     (rels G))).

(** A pattern written with both arrow heads, [<-[:T]->], matches the
    relationship in either direction. *)
Definition touches (n : node_id) (r : relationship) : bool :=
  (rstart r =? n) || (rend r =? n).

Definition other_end (n : node_id) (r : relationship) : node_id :=
  if rend r =? n then rstart r else rend r.

Definition related_names (G : graph) (ty : string) (n : node_id) : value :=
  VList (map (fun r => prop G (other_end n r) name)
             (filter (fun r => (rtype r =? ty)%string && touches n r) (rels G))).

(** [collect { MATCH (node)<-[:ACTED_IN]->(a) RETURN a.name }] *)
Definition actors_of (G : graph) (n : node_id) : value :=
  related_names G "ACTED_IN" n.

(** [collect { MATCH  (node)<-[:DIRECTED]->(d) RETURN d.name }] *)
Definition directors_of (G : graph) (n : node_id) : value :=
  related_names G "DIRECTED" n.

(** The columns of RETURN that are not aggregates; they are the grouping
    key of [avg]. *)
Definition grouping_key (G : graph) (n : node_id) (score : Q) : Row :=
  [ ("title", prop G n title);
    ("plot", prop G n plot);
    ("similarityScore", VNum score);
    ("genres", genres_of G n);
    ("actors", actors_of G n);
    ("directors", directors_of G n) ].

(** A group: its key and the [r.rating] of each binding that fell in it. *)
Definition group := (Row * list (option Q))%type.

Fixpoint add_to_group (k : Row) (x : option Q) (gs : list group) : list group :=
  match gs with
  | [] => [(k, [x])]
  | (k', xs) :: gs' =>
      if row_eqb k k' then (k', xs ++ [x]) :: gs'
      else (k', xs) :: add_to_group k x gs'
  end.

Definition add_binding (G : graph) (gs : list group) (b : binding) : list group :=
  add_to_group (grouping_key G (b_node b) (b_score b)) (rating (b_r b)) gs.

Definition group_bindings (G : graph) (bs : list binding) : list group :=
  fold_left (add_binding G) bs [].

(** [avg] skips nulls; over no number at all it is null. *)
Definition present (xs : list (option Q)) : list Q :=
  flat_map (fun x => match x with Some q => [q] | None => [] end) xs.

Definition Qsum (qs : list Q) : Q := fold_right Qplus 0%Q qs.

Definition avg (xs : list (option Q)) : value :=
  match present xs with
  | [] => VNull
  | q :: qs => VNum (Qsum (q :: qs) / inject_Z (Z.of_nat (List.length (q :: qs))))
  end.

(** One returned record per group: the key columns, then
    [avg(r.rating) as userRating]. *)
Definition return_row (g : group) : Row :=
  fst g ++ [("userRating", avg (snd g))].

(** The rating a record is ordered by; [None] stands for null. *)
Definition userRating (row : Row) : option Q :=
  match lookup "userRating" row with
  | Some (VNum q) => Some q
  | _ => None
  end.

(** [ORDER BY userRating DESC]: larger ratings first; null sorts before
    every number in descending order. *)
Definition desc_leb (a b : Row) : bool :=
  match userRating a, userRating b with
  | None, _ => true
  | Some _, None => false
  | Some x, Some y => Qle_bool y x
  end.

Module RatingDesc <: TotalLeBool.
Definition t := Row.
Definition leb := desc_leb.
Lemma leb_total : forall a b, leb a b = true \/ leb b a = true.
Proof.
  intros a b. unfold leb, desc_leb.
  destruct (userRating a) as [x|], (userRating b) as [y|]; auto.
  destruct (Qle_bool y x) eqn:E; auto.
  right. apply Qle_bool_iff.
  destruct (Qlt_le_dec x y) as [H|H].
  - apply Qlt_le_weak, H.
  - apply Qle_bool_iff in H. congruence.
Qed.
End RatingDesc.

Module RowSort := Sort RatingDesc.

(** The whole [retrieval_query], run on the candidates the vector index
    yielded. *)
Definition run_retrieval_query (G : graph) (cs : list candidate) : list Row :=
  RowSort.sort (map return_row (group_bindings G (flat_map (match_rated G) cs))).

(** ** Notions the statements below use *)

Definition has_key (k : Row) (gs : list group) : bool :=
  existsb (fun g => row_eqb k (fst g)) gs.

(** Where a group comes from: a candidate with a RATED relationship into
    it; and its ratings are those of such relationships, at least one. *)
Definition from_rated (G : graph) (cs : list candidate) (g : group) : Prop :=
  (exists n s r, In (n, s) cs /\ In r (rels G) /\ is_rated_into n r = true
                 /\ fst g = grouping_key G n s)
  /\ snd g <> []
  /\ Forall (fun x => exists r, In r (rels G) /\ rtype r = "RATED" /\ x = rating r) (snd g).

(** [a] is at least [b] in the order of [ORDER BY ... DESC], where null
    comes before every number. *)
Definition rating_ge (a b : option Q) : Prop :=
  match a, b with
  | None, _ => True
  | Some _, None => False
  | Some x, Some y => (y <= x)%Q
  end.


(** ** Notions for the further properties of the query *)

(** The column names of [RETURN], in order. *)
Definition columns : list string :=
  ["title"; "plot"; "similarityScore"; "genres"; "actors"; "directors"; "userRating"].

(** The [r.rating] of the RATED relationships that end at a node. *)
Definition ratings_into (G : graph) (n : node_id) : list (option Q) :=
  map rating (filter (is_rated_into n) (rels G)).

(** The candidate has an incoming RATED relationship. *)
Definition rated (G : graph) (c : candidate) : bool :=
  existsb (is_rated_into (fst c)) (rels G).

(** No candidate agrees with an earlier one on all six key columns. *)
Fixpoint distinct_keys (G : graph) (cs : list candidate) : bool :=
  match cs with
  | [] => true
  | c :: cs' =>
      forallb (fun c' => negb (row_eqb (grouping_key G (fst c') (snd c'))
                                       (grouping_key G (fst c) (snd c)))) cs'
      && distinct_keys G cs'
  end.

(** One group per rated candidate, holding the ratings of that node. *)
Definition groups_of_candidates (G : graph) (cs : list candidate) : list group :=
  map (fun c => (grouping_key G (fst c) (snd c), ratings_into G (fst c)))
      (filter (rated G) cs).

(** The reading the script's closing note gives of the actors pattern,
    [(node)<-[:T]-(a)]: the names of the nodes with a relationship of
    type [T] pointing to the node. *)
Definition incoming_names (G : graph) (ty : string) (n : node_id) : value :=
  VList (map (fun r => prop G (rstart r) name)
             (filter (fun r => (rtype r =? ty)%string && (rend r =? n)) (rels G))).

(** The relationship types the query mentions. *)
Definition read_by_query (r : relationship) : bool :=
  (rtype r =? "RATED")%string || (rtype r =? "IN_GENRE")%string
  || (rtype r =? "ACTED_IN")%string || (rtype r =? "DIRECTED")%string.

(** The graph without the relationships of any other type. *)
Definition restrict (G : graph) : graph :=
  {| nodes := nodes G; rels := filter read_by_query (rels G) |}.

End Cypher.

(* ================================================================== *)
(** * The retriever: vector index lookup, then the retrieval query *)

Module Retriever.
Import Graph Cypher.

Section Retriever.

(** The database the driver is connected to. *)
Variable G : graph.

(** The first half of a search is the library's: it embeds the query text
    and asks the named vector index for the nearest nodes.  It is taken as
    given: [vector_search index_name query_text top_k] raises (embedding or
    database failure, rejected arguments) or yields [node, score] pairs. *)
Variable vector_search : string -> string -> nat -> result (list candidate).

(** [retriever.search(query_text, top_k)] for a retriever built with
    [index_name] and [retrieval_query]: the candidates are piped through the
    retrieval query, one returned record per item. *)
Definition retrieve (query : string) (top_k : nat) (index_name : string)
  : result (list Row) :=
  match vector_search index_name query top_k with
  | inl e => inl e
  | inr cs => inr (run_retrieval_query G cs)
  end.

End Retriever.

(** The lookup is bounded to [top_k] candidates. *)
Definition bounded (vector_search : string -> string -> nat -> result (list candidate)) : Prop :=
  forall idx q k cs, vector_search idx q k = inr cs -> List.length cs <= k.



End Retriever.

(* ================================================================== *)
(** * The script *)

Module Script.
Import Cypher.

(** Objects the script builds; each records what it was built from. *)
Record Driver := {
  d_uri : option string;
  d_auth : option string * option string
}.

Record Embedder := { e_model : string }.

Record Retriever := {
  r_driver : Driver;
  r_index_name : string;
  r_embedder : Embedder;
  r_retrieval_query : string
}.

Record Llm := { l_model_name : string }.

Record Rag := { g_retriever : Retriever; g_llm : Llm }.

(** What [rag.search] returns: [retriever_result] is optional in the
    library's result type; reading [.items] of an absent one raises. *)
Record Response := {
  answer : string;
  retriever_result : option (list Row)
}.

(** The calls the script makes into the outside world, with their
    arguments. *)
Inductive event :=
| EvLoadDotenv
| EvDriver (uri : option string) (auth : option string * option string)
| EvEmbeddings (model : string)
| EvRetriever (d : Driver) (index_name : string) (e : Embedder) (retrieval_query : string)
| EvLLM (model_name : string)
| EvGraphRAG (r : Retriever) (l : Llm)
| EvSearch (rag : Rag) (query_text : string) (top_k : nat) (return_context : bool)
| EvPrint (line : string)
| EvClose (d : Driver).

(** Everything the script does not decide itself. *)
Record world := {
  (** [os.getenv], once [load_dotenv] has run *)
  environ : string -> option string;
  (** whether a call raises, given the calls made before it *)
  raises : list event -> event -> option exn;
  (** what [rag.search] returns when it does not raise *)
  search_returns : Rag -> string -> nat -> bool -> Response;
  (** Python's [str] of the list of retrieved items *)
  str_items : list Row -> string
}.

(** Script fragments: they read the world, extend the list of calls made so
    far, and either raise or return. *)
Definition M (A : Type) : Type := world -> list event -> list event * result A.

Definition ret {A : Type} (a : A) : M A := fun _ h => (h, inr a).

Definition bind {A B : Type} (m : M A) (f : A -> M B) : M B :=
  fun w h =>
    match m w h with
    | (h', inl e) => (h', inl e)
    | (h', inr a) => f a w h'
    end.

Definition raise {A : Type} (e : exn) : M A := fun _ h => (h, inl e).

(** An external call: it is made, and then raises or returns [v]. *)
Definition call {A : Type} (ev : event) (v : world -> A) : M A :=
  fun w h =>
    match raises w h ev with
    | Some e => (h ++ [ev], inl e)
    | None => (h ++ [ev], inr (v w))
    end.

Declare Scope script_scope.
Delimit Scope script_scope with script.
Notation "x <- m ;; k" := (bind m (fun x => k))
  (at level 100, m at next level, right associativity) : script_scope.
Notation "m ;; k" := (bind m (fun _ => k))
  (at level 100, right associativity) : script_scope.
#[local] Open Scope script_scope.

Definition load_dotenv : M unit := call EvLoadDotenv (fun _ => tt).

(** [os.getenv(k)]: [None] when the variable is absent; never raises. *)
Definition getenv (k : string) : M (option string) :=
  fun w h => (h, inr (environ w k)).

Definition GraphDatabase_driver (uri : option string)
  (auth : option string * option string) : M Driver :=
  call (EvDriver uri auth) (fun _ => {| d_uri := uri; d_auth := auth |}).

Definition OpenAIEmbeddings (model : string) : M Embedder :=
  call (EvEmbeddings model) (fun _ => {| e_model := model |}).

Definition VectorCypherRetriever (d : Driver) (index_name : string)
  (e : Embedder) (retrieval_query : string) : M Retriever :=
  call (EvRetriever d index_name e retrieval_query)
       (fun _ => {| r_driver := d; r_index_name := index_name;
                    r_embedder := e; r_retrieval_query := retrieval_query |}).

Definition OpenAILLM (model_name : string) : M Llm :=
  call (EvLLM model_name) (fun _ => {| l_model_name := model_name |}).

Definition GraphRAG (r : Retriever) (l : Llm) : M Rag :=
  call (EvGraphRAG r l) (fun _ => {| g_retriever := r; g_llm := l |}).

Definition rag_search (rag : Rag) (query_text : string) (top_k : nat)
  (return_context : bool) : M Response :=
  call (EvSearch rag query_text top_k return_context)
       (fun w => search_returns w rag query_text top_k return_context).

(** [response.retriever_result.items] *)
Definition items (r : Response) : M (list Row) :=
  match retriever_result r with
  | Some its => ret its
  | None => raise "AttributeError"
  end.

(** [print(a, b, ...)] writes its arguments separated by one space. *)
Definition print (args : list string) : M unit :=
  call (EvPrint (String.concat " " args)) (fun _ => tt).

Definition str (its : list Row) : M string :=
  fun w h => (h, inr (str_items w its)).

Definition driver_close (d : Driver) : M unit :=
  call (EvClose d) (fun _ => tt).

Definition retrieval_query : string := "
MATCH (node)<-[r:RATED]-()
RETURN 
  node.title AS title, node.plot AS plot, score AS similarityScore, 
  collect { MATCH (node)-[:IN_GENRE]->(g) RETURN g.name } as genres, 
  collect { MATCH (node)<-[:ACTED_IN]->(a) RETURN a.name } as actors, 
  collect { MATCH  (node)<-[:DIRECTED]->(d) RETURN d.name } as directors,
  avg(r.rating) as userRating
ORDER BY userRating DESC
".

Definition query_text : string :=
  "Find the highest rated action movie about travelling to other planets".

(** The script, top to bottom, with the query text as its one variable. *)
Definition script (query_text : string) : M unit :=
  load_dotenv ;;
  uri <- getenv "NEO4J_URI" ;;
  username <- getenv "NEO4J_USERNAME" ;;
  password <- getenv "NEO4J_PASSWORD" ;;
  driver <- GraphDatabase_driver uri (username, password) ;;
  embedder <- OpenAIEmbeddings "text-embedding-ada-002" ;;
  retriever <- VectorCypherRetriever driver "moviePlots" embedder retrieval_query ;;
  llm <- OpenAILLM "gpt-4o" ;;
  rag <- GraphRAG retriever llm ;;
  response <- rag_search rag query_text 5 true ;;
  print [answer response] ;;
  its <- items response ;;
  shown <- str its ;;
  print ["CONTEXT:"; shown] ;;
  driver_close driver.

Definition main : M unit := script query_text.

(** A run starts with no call made. *)
Definition run (w : world) (p : M unit) : list event * result unit := p w [].

Definition trace (w : world) (p : M unit) : list event := fst (run w p).
Definition outcome (w : world) (p : M unit) : result unit := snd (run w p).

(** Standard output: the lines printed, in order. *)
Definition stdout (tr : list event) : list string :=
  flat_map (fun ev => match ev with EvPrint line => [line] | _ => [] end) tr.

Definition is_close (ev : event) : bool :=
  match ev with EvClose _ => true | _ => false end.

(** The calls that go through the Connection: building the retriever on
    it, searching with it. *)
Definition uses_connection (ev : event) : bool :=
  match ev with
  | EvRetriever _ _ _ _ | EvSearch _ _ _ _ => true
  | _ => false
  end.

(** Failing fast at startup: a ConfigurationError, and the Connection was
    never used. *)
Definition fails_fast (tr : list event) (res : result unit) : Prop :=
  res = inl "ConfigurationError"
  /\ forall ev, In ev tr -> uses_connection ev = false.

Definition absent (w : world) (k : string) : Prop := environ w k = None.

(** The Connection was opened: the driver was built and the script went
    on past it. *)
Definition opened (tr : list event) : Prop :=
  exists uri auth pre post, tr = pre ++ EvDriver uri auth :: post /\ post <> [].

Definition reached_close (tr : list event) : Prop :=
  exists d, In (EvClose d) tr.

(** The retrieval query an event carries towards the database. *)
Definition enrichment_query_of (ev : event) : option string :=
  match ev with
  | EvRetriever _ _ _ rq => Some rq
  | EvGraphRAG r _ => Some (r_retrieval_query r)
  | EvSearch rag _ _ _ => Some (r_retrieval_query (g_retriever rag))
  | _ => None
  end.

(** The objects the script builds, as functions of the world. *)
Definition the_driver (w : world) : Driver :=
  {| d_uri := environ w "NEO4J_URI";
     d_auth := (environ w "NEO4J_USERNAME", environ w "NEO4J_PASSWORD") |}.

Definition the_embedder : Embedder := {| e_model := "text-embedding-ada-002" |}.

Definition the_retriever (w : world) : Retriever :=
  {| r_driver := the_driver w; r_index_name := "moviePlots";
     r_embedder := the_embedder; r_retrieval_query := retrieval_query |}.

Definition the_llm : Llm := {| l_model_name := "gpt-4o" |}.

Definition the_rag (w : world) : Rag :=
  {| g_retriever := the_retriever w; g_llm := the_llm |}.

Definition the_response (w : world) (q : string) : Response :=
  search_returns w (the_rag w) q 5 true.

(** The call that opens the Connection. *)
Definition open_call (w : world) : event :=
  EvDriver (environ w "NEO4J_URI")
           (environ w "NEO4J_USERNAME", environ w "NEO4J_PASSWORD").

(** Nothing is called after a [close]. *)
Fixpoint close_is_last (tr : list event) : bool :=
  match tr with
  | [] => true
  | ev :: tr' =>
      if is_close ev then match tr' with [] => true | _ => false end
      else close_is_last tr'
  end.

(** ** Notions for the further properties of the script *)

(** The Connection an event carries, if any. *)
Definition driver_of (ev : event) : option Driver :=
  match ev with
  | EvRetriever d _ _ _ => Some d
  | EvGraphRAG r _ => Some (r_driver r)
  | EvSearch rag _ _ _ => Some (r_driver (g_retriever rag))
  | EvClose d => Some d
  | _ => None
  end.

Definition is_open (ev : event) : bool :=
  match ev with EvDriver _ _ => true | _ => false end.

(** Each call of [tr], made in turn after the calls [h], returned. *)
Fixpoint all_returned (w : world) (h tr : list event) : Prop :=
  match tr with
  | [] => True
  | ev :: tr' => raises w h ev = None /\ all_returned w (h ++ [ev]) tr'
  end.

End Script.

(* ================================================================== *)
(** * A small movie graph, used to run the definitions *)

Module Sample.
Import Graph Cypher.

Definition movie (t p : string) : node :=
  {| labels := ["Movie"]; title := Some t; plot := Some p; name := None |}.
Definition named (l n : string) : node :=
  {| labels := [l]; title := None; plot := None; name := Some n |}.
Definition rel (ty : string) (a b : node_id) : relationship :=
  {| rtype := ty; rstart := a; rend := b; rating := None |}.
Definition rated (u m : node_id) (x : Q) : relationship :=
  {| rtype := "RATED"; rstart := u; rend := m; rating := Some x |}.

(** Nodes 0..2 are movies (2 has no rating), 3 a genre, 4 and 5 persons,
    6 and 7 users. *)
Definition movies : graph :=
  {| nodes := [ movie "Interstellar" "A team travels through a wormhole";
                movie "Avatar" "A marine on an alien moon";
                movie "Solaris" "A station orbiting a distant planet";
                named "Genre" "Sci-Fi";
                named "Person" "Zoe Saldana"; named "Person" "James Cameron";
                named "User" "ann"; named "User" "bob" ];
     rels := [ rated 6 0 (4 # 1)%Q; rated 7 0 (5 # 1)%Q; rated 6 1 (3 # 1)%Q;
               rel "IN_GENRE" 0 3; rel "IN_GENRE" 1 3; rel "IN_GENRE" 2 3;
               rel "ACTED_IN" 4 1; rel "DIRECTED" 5 1 ] |}.

(** What the index yields for the sample: Avatar closest, then Solaris,
    then Interstellar. *)
Definition hits : list candidate :=
  [ (1, (9 # 10)%Q); (2, (8 # 10)%Q); (0, (7 # 10)%Q) ].

(** ** Worlds to run the script in *)
Import Script.

Definition env_full (k : string) : option string :=
  if (k =? "NEO4J_URI")%string then Some "neo4j://localhost:7687"
  else if (k =? "NEO4J_USERNAME")%string then Some "neo4j"
  else if (k =? "NEO4J_PASSWORD")%string then Some "secret"
  else None.

Definition env_no_password (k : string) : option string :=
  if (k =? "NEO4J_PASSWORD")%string then None else env_full k.

Definition reply (_ : Rag) (_ : string) (_ : nat) (return_context : bool) : Response :=
  {| answer := "Interstellar";
     retriever_result :=
       if return_context then Some (run_retrieval_query movies hits) else None |}.

Definition show (its : list Row) : string :=
  "[" ++ String.concat ", " (map (fun _ => "<item>") its) ++ "]".

(** Every variable set, no call raises. *)
Definition calm : world :=
  {| environ := env_full;
     raises := fun _ _ => None;
     search_returns := reply;
     str_items := show |}.

(** The search raises: the embedding or the generation request failed. *)
Definition search_fails : world :=
  {| environ := env_full;
     raises := fun _ ev =>
       match ev with EvSearch _ _ _ _ => Some "LLMGenerationError" | _ => None end;
     search_returns := reply;
     str_items := show |}.

(** No password in the environment; the driver is built all the same, and
    the server turns the session down when the Connection is first used. *)
Definition no_password : world :=
  {| environ := env_no_password;
     raises := fun _ ev =>
       match ev with EvRetriever _ _ _ _ => Some "AuthError" | _ => None end;
     search_returns := reply;
     str_items := show |}.

(** The index lookup for the sample: the first [top_k] hits. *)
Definition sample_search (_ _ : string) (top_k : nat) : result (list candidate) :=
  inr (firstn top_k hits).

(** Two films that share title and plot, with their own ratings: nodes 0
    and 1; node 2 is a user. *)
Definition remakes : graph :=
  {| nodes := [ movie "Solaris" "A station orbiting a distant planet";
                movie "Solaris" "A station orbiting a distant planet";
                named "User" "ann" ];
     rels := [ rated 2 0 (5 # 1)%Q; rated 2 1 (2 # 1)%Q ] |}.

(** The sample graph with a relationship of a type the query does not
    mention. *)
Definition movies_and_follows : graph :=
  {| nodes := nodes movies; rels := rel "FOLLOWS" 6 7 :: rels movies |}.

(** The response carries no retriever result. *)
Definition no_context : world :=
  {| environ := env_full;
     raises := fun _ _ => None;
     search_returns := fun _ _ _ _ =>
       {| answer := "Interstellar"; retriever_result := None |};
     str_items := show |}.




End Sample.

(* ================================================================== *)
(** * Facts about the retrieval query *)

Import Graph Cypher Retriever.

(** ** Grouping *)

Lemma value_eqb_refl : forall v, value_eqb v v = true.
Proof.
  fix IH 1. intros [ | s | q | l]; simpl.
  - reflexivity.
  - apply String.eqb_refl.
  - apply Qeq_bool_iff. reflexivity.
  - induction l as [ | x l IHl]; [reflexivity | ].
    rewrite IH, IHl. reflexivity.
Qed.

Lemma row_eqb_refl : forall r, row_eqb r r = true.
Proof.
  induction r as [ | [c v] r IH]; simpl; [reflexivity | ].
  rewrite String.eqb_refl, value_eqb_refl, IH. reflexivity.
Qed.

Lemma add_to_group_length : forall k x gs,
  List.length (add_to_group k x gs)
  = if has_key k gs then List.length gs else S (List.length gs).
Proof.
  intros k x gs. induction gs as [ | [k' xs] gs IH]; simpl; [reflexivity | ].
  destruct (row_eqb k k'); simpl; [reflexivity | ].
  rewrite IH. destruct (has_key k gs); reflexivity.
Qed.

Lemma add_to_group_has_key : forall k x gs,
  has_key k (add_to_group k x gs) = true.
Proof.
  intros k x gs. induction gs as [ | [k' xs] gs IH]; simpl.
  - rewrite row_eqb_refl. reflexivity.
  - destruct (row_eqb k k') eqn:E; simpl; rewrite E; simpl; auto.
Qed.

Lemma add_to_group_keeps_key : forall k' k x gs,
  has_key k' gs = true -> has_key k' (add_to_group k x gs) = true.
Proof.
  intros k' k x gs. induction gs as [ | [k0 xs] gs IH]; simpl; [discriminate | ].
  intros H. destruct (row_eqb k k0); simpl in *; [exact H | ].
  destruct (row_eqb k' k0); simpl in *; auto.
Qed.

(** Adding to a list of groups keeps any property of groups that the new
    singleton has and that appending a value preserves. *)
Lemma add_to_group_Forall : forall (P : group -> Prop) k x gs,
  P (k, [x]) ->
  (forall k' xs, P (k', xs) -> P (k', xs ++ [x])) ->
  Forall P gs -> Forall P (add_to_group k x gs).
Proof.
  intros P k x gs Hnew Happ. induction gs as [ | [k' xs] gs IH]; simpl; intros H.
  - constructor; [exact Hnew | constructor].
  - inversion H as [ | ? ? Hg Hgs]; subst.
    destruct (row_eqb k k'); constructor; auto.
Qed.

(** Bindings that share a key open at most one group. *)
Lemma one_key_joins : forall G n s bs gs,
  Forall (fun b => b_node b = n /\ b_score b = s) bs ->
  has_key (grouping_key G n s) gs = true ->
  List.length (fold_left (add_binding G) bs gs) = List.length gs.
Proof.
  intros G n s bs. induction bs as [ | b bs IH]; simpl; intros gs Hbs Hk; [reflexivity | ].
  inversion Hbs as [ | ? ? [Hn Hs] Hbs']; subst.
  rewrite IH; auto.
  - unfold add_binding. rewrite add_to_group_length, Hk. reflexivity.
  - unfold add_binding. apply add_to_group_keeps_key, Hk.
Qed.

Lemma one_key_opens_at_most_one : forall G n s bs gs,
  Forall (fun b => b_node b = n /\ b_score b = s) bs ->
  List.length (fold_left (add_binding G) bs gs) <= S (List.length gs).
Proof.
  intros G n s bs gs Hbs. destruct bs as [ | b bs]; simpl; [lia | ].
  inversion Hbs as [ | ? ? [Hn Hs] Hbs']; subst.
  rewrite (one_key_joins G (b_node b) (b_score b)); auto.
  - unfold add_binding. rewrite add_to_group_length.
    destruct (has_key _ gs); lia.
  - unfold add_binding. apply add_to_group_has_key.
Qed.

Lemma match_rated_one_key : forall G c,
  Forall (fun b => b_node b = fst c /\ b_score b = snd c) (match_rated G c).
Proof.
  intros G c. unfold match_rated. apply Forall_forall. intros b Hb.
  apply in_map_iff in Hb. destruct Hb as [r [Hr _]]. subst b. simpl. auto.
Qed.

(** No more groups than candidates. *)
Lemma groups_bounded : forall G cs gs,
  List.length (fold_left (add_binding G) (flat_map (match_rated G) cs) gs)
  <= List.length gs + List.length cs.
Proof.
  intros G cs. induction cs as [ | c cs IH]; simpl; intros gs; [lia | ].
  rewrite fold_left_app.
  pose proof (IH (fold_left (add_binding G) (match_rated G c) gs)) as H1.
  pose proof (one_key_opens_at_most_one G (fst c) (snd c) _ gs (match_rated_one_key G c)) as H2.
  lia.
Qed.

Lemma is_rated_into_spec : forall n r,
  is_rated_into n r = true <-> rtype r = "RATED" /\ rend r = n.
Proof.
  intros n r. unfold is_rated_into.
  rewrite andb_true_iff, String.eqb_eq, Nat.eqb_eq. reflexivity.
Qed.

Lemma in_matched : forall G cs b,
  In b (flat_map (match_rated G) cs) ->
  In (b_node b, b_score b) cs /\ In (b_r b) (rels G)
  /\ is_rated_into (b_node b) (b_r b) = true.
Proof.
  intros G cs b Hb. apply in_flat_map in Hb. destruct Hb as [[n s] [Hc Hb]].
  unfold match_rated in Hb. apply in_map_iff in Hb. destruct Hb as [r [Hr Hf]].
  apply filter_In in Hf. subst b. simpl in *. tauto.
Qed.

Lemma groups_from_rated : forall G cs bs gs,
  incl bs (flat_map (match_rated G) cs) ->
  Forall (from_rated G cs) gs ->
  Forall (from_rated G cs) (fold_left (add_binding G) bs gs).
Proof.
  intros G cs bs. induction bs as [ | b bs IH]; simpl; intros gs Hin Hgs; [exact Hgs | ].
  apply IH; [intros x Hx; apply Hin; right; exact Hx | ].
  destruct (in_matched G cs b (Hin b (or_introl eq_refl))) as [Hc [Hr Hm]].
  assert (Hx : exists r, In r (rels G) /\ rtype r = "RATED" /\ rating (b_r b) = rating r).
  { exists (b_r b). apply is_rated_into_spec in Hm. tauto. }
  unfold add_binding. apply add_to_group_Forall; [ | | exact Hgs].
  - split; [ | split].
    + exists (b_node b), (b_score b), (b_r b). auto.
    + discriminate.
    + constructor; [exact Hx | constructor].
  - intros k' xs [Hk [Hne Hall]]. split; [exact Hk | split].
    + simpl. destruct xs; discriminate.
    + simpl in *. apply Forall_app. split; [exact Hall | constructor; [exact Hx | constructor]].
Qed.

(** ** Ordering *)

Lemma desc_leb_rating_ge : forall a b,
  desc_leb a b = true <-> rating_ge (userRating a) (userRating b).
Proof.
  intros a b. unfold desc_leb, rating_ge.
  destruct (userRating a), (userRating b); try tauto.
  - apply Qle_bool_iff.
  - split; [discriminate | contradiction].
Qed.

Lemma rating_ge_trans : forall a b c,
  rating_ge a b -> rating_ge b c -> rating_ge a c.
Proof.
  intros [x|] [y|] [z|]; simpl; try tauto.
  intros H1 H2. apply (Qle_trans _ y); assumption.
Qed.

Lemma sort_sorted : forall rows,
  StronglySorted (fun a b => rating_ge (userRating a) (userRating b)) (RowSort.sort rows).
Proof.
  intros rows.
  assert (T : Relations_1.Transitive (fun a b => is_true (RatingDesc.leb a b))).
  { intros a b c Hab Hbc. unfold is_true, RatingDesc.leb in *.
    rewrite desc_leb_rating_ge in *. eapply rating_ge_trans; eassumption. }
  pose proof (RowSort.StronglySorted_sort rows T) as H.
  induction H as [ | a l Hl IH Ha]; constructor; [exact IH | ].
  apply Forall_forall. intros b Hb. rewrite Forall_forall in Ha.
  apply desc_leb_rating_ge. apply Ha, Hb.
Qed.

(** ** The records returned *)

Lemma in_run_retrieval_query : forall G cs row,
  In row (run_retrieval_query G cs) ->
  exists g, from_rated G cs g /\ row = return_row g.
Proof.
  intros G cs row H. unfold run_retrieval_query in H.
  apply (Permutation_in _ (Permutation_sym (RowSort.Permuted_sort _))) in H.
  apply in_map_iff in H. destruct H as [g [Hrow Hg]]. exists g. split; [ | auto].
  pose proof (groups_from_rated G cs _ [] (incl_refl _) (Forall_nil _)) as HF.
  rewrite Forall_forall in HF. apply HF, Hg.
Qed.

Lemma run_retrieval_query_length : forall G cs,
  List.length (run_retrieval_query G cs) <= List.length cs.
Proof.
  intros G cs. unfold run_retrieval_query.
  rewrite <- (Permutation_length (RowSort.Permuted_sort _)), length_map.
  apply (groups_bounded G cs []).
Qed.

Lemma retrieve_inr : forall G vs q k idx rows,
  retrieve G vs q k idx = inr rows ->
  exists cs, vs idx q k = inr cs /\ rows = run_retrieval_query G cs.
Proof.
  intros G vs q k idx rows. unfold retrieve.
  destruct (vs idx q k) as [e | cs]; [discriminate | ].
  intros H. injection H as <-. exists cs. auto.
Qed.

Lemma names_schema_rel : forall G r,
  names_schema G = true -> In r (rels G) ->
  (rtype r = "IN_GENRE" -> has_name G (rend r) = true)
  /\ (rtype r = "ACTED_IN" \/ rtype r = "DIRECTED" ->
      has_name G (rstart r) = true
      /\ has_label G (rstart r) "Movie" = false
      /\ has_label G (rend r) "Movie" = true).
Proof.
  intros G r HS Hr. unfold names_schema in HS. rewrite forallb_forall in HS.
  specialize (HS r Hr). split.
  - intros E. rewrite E in HS. exact HS.
  - intros E.
    assert (N : (rtype r =? "IN_GENRE")%string = false)
      by (destruct E as [E | E]; rewrite E; reflexivity).
    assert (Y : ((rtype r =? "ACTED_IN")%string || (rtype r =? "DIRECTED")%string) = true)
      by (destruct E as [E | E]; rewrite E; reflexivity).
    rewrite N, Y in HS. rewrite !andb_true_iff, negb_true_iff in HS. tauto.
Qed.






(** ** The claims about retrieval *)

(** C1.  For every query string and every [top_k = k], a search that
    returns yields at most [k] records, in non-increasing order of
    [userRating] (the order of [ORDER BY userRating DESC]; the similarity
    score plays no part in it).  The index lookup is the library's and is
    assumed bounded to [top_k] candidates. *)
Theorem retrieve_at_most_k_by_rating :
  forall (G : graph) vector_search,
    bounded vector_search ->
    forall query k index_name rows,
      retrieve G vector_search query k index_name = inr rows ->
      List.length rows <= k
      /\ StronglySorted (fun a b => rating_ge (userRating a) (userRating b)) rows.
Proof.
  intros G vs Hb q k idx rows H.
  destruct (retrieve_inr _ _ _ _ _ _ H) as [cs [Hcs ->]]. split.
  - pose proof (run_retrieval_query_length G cs). pose proof (Hb _ _ _ _ Hcs). lia.
  - apply sort_sorted.
Qed.

Lemma sample_search_bounded : bounded Sample.sample_search.
Proof.
  intros idx q k cs H. unfold Sample.sample_search in H. injection H as <-.
  apply firstn_le_length.
Defined.

Lemma retrieve_at_most_k_by_rating_witness :
  bounded Sample.sample_search
  /\ exists rows,
       retrieve Sample.movies Sample.sample_search Script.query_text 3 "moviePlots" = inr rows
       /\ map userRating rows = [Some (9 # 2)%Q; Some (3 # 1)%Q]
       /\ List.length rows <= 3
       /\ StronglySorted (fun a b => rating_ge (userRating a) (userRating b)) rows.
Proof.
  split; [exact sample_search_bounded | ].
  eexists. split; [reflexivity | split; [reflexivity | ]].
  apply (retrieve_at_most_k_by_rating Sample.movies Sample.sample_search
           sample_search_bounded Script.query_text 3 "moviePlots").
  reflexivity.
Defined.

(** The order is by rating and not by similarity: on the sample graph the
    record returned first has the lower similarity score. *)
Example order_is_not_by_similarity :
  map (fun row => (lookup "title" row, lookup "similarityScore" row, lookup "userRating" row))
      (run_retrieval_query Sample.movies Sample.hits)
  = [ (Some (VStr "Interstellar"), Some (VNum (7 # 10)), Some (VNum (9 # 2)));
      (Some (VStr "Avatar"), Some (VNum (9 # 10)), Some (VNum (3 # 1))) ].
Proof. reflexivity. Qed.

Lemma returned_row_origin : forall G vs q k idx rows row,
  retrieve G vs q k idx = inr rows -> In row rows ->
  exists cs n s r xs,
    vs idx q k = inr cs /\ In (n, s) cs
    /\ In r (rels G) /\ rtype r = "RATED" /\ rend r = n
    /\ row = grouping_key G n s ++ [("userRating", avg xs)]
    /\ xs <> []
    /\ Forall (fun x => exists r, In r (rels G) /\ rtype r = "RATED" /\ x = rating r) xs.
Proof.
  intros G vs q k idx rows row H Hin.
  destruct (retrieve_inr _ _ _ _ _ _ H) as [cs [Hcs ->]].
  destruct (in_run_retrieval_query _ _ _ Hin) as [[key xs] [[Hk [Hne Hall]] ->]].
  destruct Hk as [n [s [r [Hc [Hr [Hm Hkey]]]]]]. simpl in *. subst key.
  apply is_rated_into_spec in Hm. destruct Hm as [Ht He].
  exists cs, n, s, r, xs. unfold return_row. simpl. tauto.
Qed.








(** The sample holds a movie nobody rated; the index yields it, and the
    query returns no record for it. *)
Example unrated_movie_is_dropped :
  In (2, (8 # 10)%Q) Sample.hits
  /\ prop Sample.movies 2 title = VStr "Solaris"
  /\ map (lookup "title") (run_retrieval_query Sample.movies Sample.hits)
     = [Some (VStr "Interstellar"); Some (VStr "Avatar")].
Proof. split; [right; left; reflexivity | split; reflexivity]. Qed.



(** ** [top_k = 0] *)

(** What the query adds to a lookup that yields nothing: nothing. *)
Lemma no_candidate_no_record : forall G, run_retrieval_query G [] = [].
Proof. reflexivity. Qed.

(** Whether a search with [top_k = 0] returns at all is the library's
    lookup to decide, not the script's query: a bounded lookup that returns
    the empty list and a bounded lookup that turns the argument down both
    fit the query, and give different answers. *)
Lemma top_k_zero_is_up_to_the_lookup :
  (exists vs, bounded vs
              /\ forall G q idx, retrieve G vs q 0 idx = inr [])
  /\ (exists vs, bounded vs
                 /\ forall G q idx, retrieve G vs q 0 idx = inl "SearchValidationError").
Proof.
  split.
  - exists (fun _ _ k => inr (firstn k Sample.hits)). split.
    + intros idx q k cs H. injection H as <-. apply firstn_le_length.
    + reflexivity.
  - exists (fun _ _ k => match k with
                         | 0 => inl "SearchValidationError"
                         | _ => inr (firstn k Sample.hits)
                         end). split.
    + intros idx q k cs H. destruct k as [ | k]; [discriminate H | ].
      injection H as <-. exact (firstn_le_length (S k) Sample.hits).
    + reflexivity.
Qed.

(* ================================================================== *)
(** * Facts about the script *)

Import Script.

(** Unfold the script down to the calls it makes. *)
Ltac expose_calls :=
  unfold fails_fast, reached_close, trace, outcome, run, main, script, load_dotenv, getenv,
    GraphDatabase_driver, OpenAIEmbeddings, VectorCypherRetriever, OpenAILLM,
    GraphRAG, rag_search, items, print, str, driver_close, bind, call, ret, raise,
    the_response, the_rag, the_retriever, the_llm, the_embedder, the_driver, open_call;
  cbn.

(** Follow the script call by call: each one raises or returns. *)
Ltac walk :=
  repeat match goal with
  | |- context [raises ?w ?h ?e] =>
      let E := fresh "E" in destruct (raises w h e) eqn:E; cbn
  | |- context [retriever_result ?r] =>
      let R := fresh "R" in destruct (retriever_result r) eqn:R; cbn
  end.

Lemma close_is_last_spec : forall tr,
  close_is_last tr = true ->
  forall pre d post, tr = pre ++ EvClose d :: post -> post = [].
Proof.
  induction tr as [ | ev tr IH]; intros H pre d post E.
  - destruct pre; discriminate E.
  - destruct pre as [ | p pre]; simpl in E; injection E as -> ->.
    + simpl in H. destruct post; [reflexivity | discriminate H].
    + simpl in H. destruct (is_close p).
      * destruct pre; discriminate H.
      * apply (IH H pre d post eq_refl).
Qed.

Lemma script_close_is_last : forall w q,
  close_is_last (trace w (script q)) = true.
Proof. intros w q. expose_calls. walk; reflexivity. Qed.

(** C2, as amended.  [driver.close()] is the last statement of the script:
    no call follows it, so the Connection is never used once closed; a run
    that ends normally has closed it; and a run that ends with an exception
    has reached [close] only if [close] itself raised it.  When an earlier
    call raises, [rag.search] included, the script ends there and the
    Connection is left open. *)
Theorem close_only_on_the_normal_path :
  forall w q,
    (forall pre d post,
        trace w (script q) = pre ++ EvClose d :: post -> post = [])
    /\ (outcome w (script q) = inr tt ->
        In (EvClose (the_driver w)) (trace w (script q)))
    /\ (forall x, outcome w (script q) = inl x ->
        forall d, In (EvClose d) (trace w (script q)) ->
        exists pre, trace w (script q) = pre ++ [EvClose d]
                    /\ raises w pre (EvClose d) = Some x).
Proof.
  intros w q. split; [ | split].
  - apply close_is_last_spec, script_close_is_last.
  - expose_calls. walk; intros H; try discriminate H.
    repeat (try (left; reflexivity); right).
  - intros x. expose_calls. walk; intros H d Hin; try discriminate H;
      injection H as <-;
      repeat (destruct Hin as [Hin | Hin]; [try discriminate Hin | ]);
      try contradiction.
    injection Hin as <-.
    match goal with
    | |- exists pre, ?tr = _ /\ _ => exists (removelast tr)
    end.
    cbn. split; [reflexivity | assumption].
Qed.

Lemma close_only_on_the_normal_path_witness :
  In (EvClose (the_driver Sample.calm)) (trace Sample.calm main)
  /\ forall d, ~ In (EvClose d) (trace Sample.search_fails main).
Proof.
  split.
  - apply (proj1 (proj2 (close_only_on_the_normal_path Sample.calm query_text))).
    reflexivity.
  - intros d Hin.
    destruct (proj2 (proj2 (close_only_on_the_normal_path Sample.search_fails query_text))
                "LLMGenerationError" eq_refl d Hin) as [pre [_ Hr]].
    discriminate Hr.
Defined.

(** C2, as stated, fails: in a world where [rag.search] raises, the
    Connection has been opened and the script ends without closing it. *)
Lemma close_not_reached_when_search_raises :
  opened (trace Sample.search_fails main)
  /\ outcome Sample.search_fails main = inl "LLMGenerationError"
  /\ ~ reached_close (trace Sample.search_fails main).
Proof.
  split; [ | split].
  - exists (Some "neo4j://localhost:7687"), (Some "neo4j", Some "secret"), [EvLoadDotenv].
    eexists. split; [reflexivity | discriminate].
  - reflexivity.
  - intros [d Hin]. cbn in Hin.
    repeat (destruct Hin as [Hin | Hin]; [discriminate Hin | ]). exact Hin.
Qed.

(** C3, as amended.  The script makes no check of its own on the three
    connection parameters: what [os.getenv] returns, [None] for an absent
    variable, goes to [GraphDatabase.driver] as it is.  If that constructor
    raises, the script ends there, at startup, with the constructor's
    exception.  If it returns, the script goes on whichever parameters are
    absent: its next call builds the embedder, and if that call returns as
    well, the call after it builds the retriever on the driver made from
    those unchecked values, the first call that uses the Connection. *)
Theorem driver_gets_the_environment_unchecked :
  forall w q,
    raises w [] EvLoadDotenv = None ->
    (forall x, raises w [EvLoadDotenv] (open_call w) = Some x ->
               run w (script q) = ([EvLoadDotenv; open_call w], inl x))
    /\ (raises w [EvLoadDotenv] (open_call w) = None ->
        exists rest,
          trace w (script q)
          = [EvLoadDotenv; open_call w; EvEmbeddings "text-embedding-ada-002"] ++ rest)
    /\ (raises w [EvLoadDotenv] (open_call w) = None ->
        raises w [EvLoadDotenv; open_call w]
               (EvEmbeddings "text-embedding-ada-002") = None ->
        the_driver w
        = {| d_uri := environ w "NEO4J_URI";
             d_auth := (environ w "NEO4J_USERNAME", environ w "NEO4J_PASSWORD") |}
        /\ uses_connection (EvRetriever (the_driver w) "moviePlots" the_embedder
                                        retrieval_query) = true
        /\ exists rest,
             trace w (script q)
             = [EvLoadDotenv; open_call w; EvEmbeddings "text-embedding-ada-002";
                EvRetriever (the_driver w) "moviePlots" the_embedder retrieval_query]
               ++ rest).
Proof.
  intros w q H0. split; [ | split].
  - intros x Hx. unfold open_call in Hx. expose_calls. rewrite H0. cbn.
    rewrite Hx. reflexivity.
  - intros Hx. unfold open_call in Hx. expose_calls. rewrite H0. cbn.
    rewrite Hx. cbn. walk; eexists; reflexivity.
  - intros Hx He. split; [reflexivity | split; [reflexivity | ]].
    unfold open_call in Hx, He. expose_calls. rewrite H0. cbn.
    rewrite Hx. cbn. rewrite He. cbn. walk; eexists; reflexivity.
Qed.

Lemma driver_gets_the_environment_unchecked_witness :
  open_call Sample.no_password
  = EvDriver (Some "neo4j://localhost:7687") (Some "neo4j", None)
  /\ exists rest,
       trace Sample.no_password main
       = [EvLoadDotenv; open_call Sample.no_password;
          EvEmbeddings "text-embedding-ada-002";
          EvRetriever (the_driver Sample.no_password) "moviePlots" the_embedder
                      retrieval_query] ++ rest.
Proof.
  split; [reflexivity | ].
  apply (proj2 (proj2 (driver_gets_the_environment_unchecked
                         Sample.no_password query_text eq_refl))
           eq_refl eq_refl).
Defined.

(** C3, as stated, fails: with no password in the environment the driver
    is built, and the script ends later, with another exception, at the
    first call that uses the Connection. *)
Lemma missing_password_fails_at_first_use :
  absent Sample.no_password "NEO4J_PASSWORD"
  /\ outcome Sample.no_password main = inl "AuthError"
  /\ trace Sample.no_password main
     = [ EvLoadDotenv; open_call Sample.no_password;
         EvEmbeddings "text-embedding-ada-002";
         EvRetriever (the_driver Sample.no_password) "moviePlots" the_embedder
                     retrieval_query ]
  /\ ~ fails_fast (trace Sample.no_password main) (outcome Sample.no_password main).
Proof.
  split; [reflexivity | split; [reflexivity | split; [reflexivity | ]]].
  intros [Hres _]. discriminate Hres.
Qed.

(** C7.  What the script writes to standard output starts with the
    answer; a run that ends normally has written two lines, the answer and
    then the line of the retrieved context. *)
Theorem stdout_is_answer_then_context :
  forall w q,
    (forall line rest, stdout (trace w (script q)) = line :: rest ->
                       line = answer (the_response w q))
    /\ (outcome w (script q) = inr tt ->
        exists its,
          retriever_result (the_response w q) = Some its
          /\ stdout (trace w (script q))
             = [ answer (the_response w q);
                 ("CONTEXT: " ++ str_items w its)%string ]).
Proof.
  intros w q. split.
  - intros line rest. expose_calls. walk; intros H; try discriminate H;
      injection H as <- _; reflexivity.
  - expose_calls. walk; intros H; try discriminate H.
    eexists. split; reflexivity.
Qed.

Lemma stdout_is_answer_then_context_witness :
  stdout (trace Sample.calm main) = ["Interstellar"; "CONTEXT: [<item>, <item>]"].
Proof.
  destruct (proj2 (stdout_is_answer_then_context Sample.calm query_text) eq_refl)
    as [its [Hits Hout]].
  unfold main. rewrite Hout. injection Hits as <-. reflexivity.
Defined.

Lemma script_enrichment_query : forall w q ev s,
  In ev (trace w (script q)) -> enrichment_query_of ev = Some s ->
  s = retrieval_query.
Proof.
  intros w q ev s. expose_calls. walk; intros Hin Hs;
    repeat (destruct Hin as [<- | Hin];
            [cbn in Hs; first [discriminate Hs | injection Hs as <-; reflexivity] | ]);
    contradiction.
Qed.

(** C8.  The retrieval query that reaches the retriever, the pipeline and
    the search is the constant [retrieval_query], whatever the query text
    and whatever the world: for any two query texts it is the same
    string. *)
Theorem enrichment_query_is_fixed :
  forall w1 w2 q1 q2 ev1 ev2 s1 s2,
    In ev1 (trace w1 (script q1)) -> enrichment_query_of ev1 = Some s1 ->
    In ev2 (trace w2 (script q2)) -> enrichment_query_of ev2 = Some s2 ->
    s1 = s2 /\ s1 = retrieval_query.
Proof.
  intros w1 w2 q1 q2 ev1 ev2 s1 s2 H1 E1 H2 E2.
  rewrite (script_enrichment_query _ _ _ _ H1 E1).
  rewrite (script_enrichment_query _ _ _ _ H2 E2). split; reflexivity.
Qed.

Lemma enrichment_query_is_fixed_witness :
  r_retrieval_query (g_retriever (the_rag Sample.calm))
  = r_retrieval_query (the_retriever Sample.no_password).
Proof.
  refine (proj1 (enrichment_query_is_fixed Sample.calm Sample.no_password
           query_text "Which movie has the best soundtrack?"
           (EvSearch (the_rag Sample.calm) query_text 5 true)
           (EvRetriever (the_driver Sample.no_password) "moviePlots" the_embedder
                        retrieval_query) _ _ _ _ _ _)).
  - cbn. do 6 right. left. reflexivity.
  - reflexivity.
  - cbn. do 3 right. left. reflexivity.
  - reflexivity.
Defined.

(** ** An empty retrieval *)

(** The script has no case of its own for a search that retrieved nothing:
    when [rag.search] returns an answer with an empty list of items and no
    call raises, the script prints the answer, prints the empty context and
    closes the Connection.  What prompt the pipeline gave the model is
    inside [rag.search]. *)
Lemma empty_context_is_printed :
  forall w q,
    retriever_result (the_response w q) = Some [] ->
    (forall h ev, raises w h ev = None) ->
    outcome w (script q) = inr tt
    /\ stdout (trace w (script q))
       = [ answer (the_response w q); ("CONTEXT: " ++ str_items w [])%string ]
    /\ In (EvClose (the_driver w)) (trace w (script q)).
Proof.
  intros w q. expose_calls. intros R Hn. rewrite !Hn, R. cbn. rewrite !Hn. cbn.
  split; [reflexivity | split; [reflexivity | ]].
  do 9 right. left. reflexivity.
Qed.

(* ================================================================== *)
(** * Further properties of the retrieval query *)

(** Every returned record has the seven columns of [RETURN], in the order
    they are written. *)
Theorem returned_columns :
  forall (G : graph) vector_search query k index_name rows row,
    retrieve G vector_search query k index_name = inr rows ->
    In row rows ->
    map fst row = columns.
Proof.
  intros G vs q k idx rows row H Hin.
  destruct (returned_row_origin _ _ _ _ _ _ _ H Hin)
    as [cs [n [s [r [xs [_ [_ [_ [_ [_ [-> _]]]]]]]]]]].
  reflexivity.
Qed.

Lemma returned_columns_witness :
  map fst (nth 0 (run_retrieval_query Sample.movies Sample.hits) []) = columns.
Proof.
  apply (returned_columns Sample.movies Sample.sample_search
           Script.query_text 3 "moviePlots"
           (run_retrieval_query Sample.movies Sample.hits)).
  - reflexivity.
  - left. reflexivity.
Defined.

Lemma fold_keeps_key : forall G k bs gs,
  has_key k gs = true -> has_key k (fold_left (add_binding G) bs gs) = true.
Proof.
  intros G k bs. induction bs as [ | b bs IH]; simpl; intros gs H; [exact H | ].
  apply IH. unfold add_binding. apply add_to_group_keeps_key, H.
Qed.

Lemma fold_has_key : forall G bs gs b,
  In b bs ->
  has_key (grouping_key G (b_node b) (b_score b)) (fold_left (add_binding G) bs gs) = true.
Proof.
  intros G bs. induction bs as [ | b0 bs IH]; simpl; intros gs b Hin; [contradiction | ].
  destruct Hin as [-> | Hin].
  - apply fold_keeps_key. unfold add_binding. apply add_to_group_has_key.
  - apply IH, Hin.
Qed.

Lemma rated_has_binding : forall G c,
  rated G c = true ->
  exists r, In {| b_node := fst c; b_score := snd c; b_r := r |} (match_rated G c).
Proof.
  intros G c H. unfold rated in H. apply existsb_exists in H.
  destruct H as [r [Hr Hm]]. exists r. unfold match_rated.
  apply in_map_iff. exists r. split; [reflexivity | ].
  apply filter_In. auto.
Qed.

(** No rated candidate is lost: each candidate with an incoming RATED
    relationship is represented by a returned record, whose six key columns
    are equivalent to the candidate's. *)
Theorem rated_candidate_is_returned :
  forall (G : graph) vector_search query k index_name rows cs n s,
    retrieve G vector_search query k index_name = inr rows ->
    vector_search index_name query k = inr cs ->
    In (n, s) cs ->
    rated G (n, s) = true ->
    exists key x,
      In (key ++ [("userRating", x)]) rows
      /\ row_eqb (grouping_key G n s) key = true.
Proof.
  intros G vs q k idx rows cs n s H Hcs Hin Hr.
  destruct (retrieve_inr _ _ _ _ _ _ H) as [cs' [Hcs' ->]].
  rewrite Hcs in Hcs'. injection Hcs' as <-.
  destruct (rated_has_binding G (n, s) Hr) as [r Hb].
  assert (Hall : In {| b_node := n; b_score := s; b_r := r |}
                    (flat_map (match_rated G) cs)).
  { apply in_flat_map. exists (n, s). auto. }
  pose proof (fold_has_key G _ [] _ Hall) as Hk. simpl in Hk.
  unfold has_key in Hk. apply existsb_exists in Hk.
  destruct Hk as [[key xs] [Hg Heq]]. simpl in Heq.
  exists key, (avg xs). split; [ | exact Heq].
  unfold run_retrieval_query.
  apply (Permutation_in _ (RowSort.Permuted_sort _)).
  apply in_map_iff. exists (key, xs). split; [reflexivity | exact Hg].
Qed.

Lemma rated_candidate_is_returned_witness :
  exists key x,
    In (key ++ [("userRating", x)]) (run_retrieval_query Sample.movies Sample.hits)
    /\ row_eqb (grouping_key Sample.movies 1 (9 # 10)) key = true.
Proof.
  apply (rated_candidate_is_returned Sample.movies Sample.sample_search
           Script.query_text 3 "moviePlots"
           (run_retrieval_query Sample.movies Sample.hits) Sample.hits).
  - reflexivity.
  - reflexivity.
  - left. reflexivity.
  - reflexivity.
Defined.

Lemma unrated_matches_nothing : forall G c,
  rated G c = false -> match_rated G c = [].
Proof.
  intros G c H. unfold match_rated, rated in *.
  induction (rels G) as [ | r l IH]; simpl in *; [reflexivity | ].
  apply orb_false_iff in H. destruct H as [H1 H2]. rewrite H1. apply IH, H2.
Qed.

Lemma matched_of_rated : forall G cs,
  flat_map (match_rated G) (filter (rated G) cs) = flat_map (match_rated G) cs.
Proof.
  intros G cs. induction cs as [ | c cs IH]; simpl; [reflexivity | ].
  destruct (rated G c) eqn:E; simpl; rewrite IH; [reflexivity | ].
  rewrite (unrated_matches_nothing G c E). reflexivity.
Qed.

(** Candidates without an incoming RATED relationship play no part:
    leaving them out of the candidates gives the same records. *)
Theorem unrated_candidates_are_ignored :
  forall (G : graph) (cs : list candidate),
    run_retrieval_query G (filter (rated G) cs) = run_retrieval_query G cs.
Proof.
  intros G cs. unfold run_retrieval_query. rewrite matched_of_rated. reflexivity.
Qed.

(** ** One record per rated candidate *)

Lemma has_key_app : forall k gs hs,
  has_key k (gs ++ hs) = has_key k gs || has_key k hs.
Proof. intros k gs hs. unfold has_key. apply existsb_app. Qed.

Lemma add_to_group_new : forall k x gs,
  has_key k gs = false -> add_to_group k x gs = gs ++ [(k, [x])].
Proof.
  intros k x gs. induction gs as [ | [k' xs] gs IH]; simpl; intros H; [reflexivity | ].
  apply orb_false_iff in H. destruct H as [H1 H2]. rewrite H1, (IH H2). reflexivity.
Qed.

(** A binding whose key is equivalent to that of the last group, and to no
    earlier one, joins the last group. *)
Lemma add_to_group_last : forall k k0 x xs gs,
  has_key k gs = false -> row_eqb k k0 = true ->
  add_to_group k x (gs ++ [(k0, xs)]) = gs ++ [(k0, xs ++ [x])].
Proof.
  intros k k0 x xs gs. induction gs as [ | [k' ys] gs IH]; simpl; intros H E.
  - rewrite E. reflexivity.
  - apply orb_false_iff in H. destruct H as [H1 H2]. rewrite H1, (IH H2 E). reflexivity.
Qed.

Lemma fold_into_last : forall G n s k0 rs xs gs,
  has_key (grouping_key G n s) gs = false ->
  row_eqb (grouping_key G n s) k0 = true ->
  fold_left (add_binding G)
            (map (fun r => {| b_node := n; b_score := s; b_r := r |}) rs)
            (gs ++ [(k0, xs)])
  = gs ++ [(k0, xs ++ map rating rs)].
Proof.
  intros G n s k0 rs. induction rs as [ | r rs IH]; simpl; intros xs gs H E.
  - rewrite app_nil_r. reflexivity.
  - unfold add_binding at 2. simpl. rewrite (add_to_group_last _ _ _ _ _ H E).
    rewrite (IH _ _ H E), <- app_assoc. reflexivity.
Qed.

Lemma rated_filter : forall G c,
  rated G c = false -> filter (is_rated_into (fst c)) (rels G) = [].
Proof.
  intros G c H. unfold rated in H.
  induction (rels G) as [ | r l IH]; simpl in *; [reflexivity | ].
  apply orb_false_iff in H. destruct H as [H1 H2]. rewrite H1. apply IH, H2.
Qed.

Lemma filter_nonempty_rated : forall G c r rs,
  filter (is_rated_into (fst c)) (rels G) = r :: rs -> rated G c = true.
Proof.
  intros G c r rs H. unfold rated. apply existsb_exists. exists r.
  assert (Hin : In r (filter (is_rated_into (fst c)) (rels G)))
    by (rewrite H; left; reflexivity).
  apply filter_In in Hin. exact Hin.
Qed.

(** The bindings of a candidate whose key is new open one group, with the
    ratings of its node; those of an unrated candidate open none. *)
Lemma fold_candidate : forall G c gs,
  has_key (grouping_key G (fst c) (snd c)) gs = false ->
  fold_left (add_binding G) (match_rated G c) gs
  = gs ++ (if rated G c
           then [(grouping_key G (fst c) (snd c), ratings_into G (fst c))]
           else []).
Proof.
  intros G c gs H. unfold match_rated, ratings_into.
  destruct (filter (is_rated_into (fst c)) (rels G)) as [ | r rs] eqn:E.
  - destruct (rated G c) eqn:R.
    + apply existsb_exists in R. destruct R as [r [Hr Hm]].
      assert (Hin : In r (filter (is_rated_into (fst c)) (rels G)))
        by (apply filter_In; auto).
      rewrite E in Hin. contradiction.
    + simpl. rewrite app_nil_r. reflexivity.
  - rewrite (filter_nonempty_rated G c r rs E). simpl.
    unfold add_binding at 2. simpl. rewrite (add_to_group_new _ _ _ H).
    apply (fold_into_last G (fst c) (snd c) _ rs [rating r] gs H).
    apply row_eqb_refl.
Qed.

Lemma fold_distinct : forall G cs gs,
  distinct_keys G cs = true ->
  (forall c, In c cs -> has_key (grouping_key G (fst c) (snd c)) gs = false) ->
  fold_left (add_binding G) (flat_map (match_rated G) cs) gs
  = gs ++ groups_of_candidates G cs.
Proof.
  intros G cs. induction cs as [ | c cs IH]; simpl; intros gs HD Hnew.
  - rewrite app_nil_r. reflexivity.
  - apply andb_true_iff in HD. destruct HD as [Hc HD].
    rewrite forallb_forall in Hc.
    rewrite fold_left_app, (fold_candidate G c gs (Hnew c (or_introl eq_refl))).
    rewrite IH; [ | exact HD | ].
    + unfold groups_of_candidates. simpl.
      destruct (rated G c); simpl; rewrite <- app_assoc; reflexivity.
    + intros c' Hc'. rewrite has_key_app, (Hnew c' (or_intror Hc')). simpl.
      destruct (rated G c); simpl; [ | reflexivity].
      rewrite orb_false_r. apply negb_true_iff, Hc, Hc'.
Qed.

(** When no two candidates agree on all six key columns, the query returns
    exactly one record per candidate that has an incoming RATED
    relationship: its key columns, then the average of the ratings of the
    RATED relationships into that node, the records being then sorted. *)
Theorem one_record_per_rated_candidate :
  forall (G : graph) (cs : list candidate),
    distinct_keys G cs = true ->
    run_retrieval_query G cs
    = RowSort.sort
        (map (fun c => grouping_key G (fst c) (snd c)
                       ++ [("userRating", avg (ratings_into G (fst c)))])
             (filter (rated G) cs))
    /\ List.length (run_retrieval_query G cs) = List.length (filter (rated G) cs).
Proof.
  intros G cs HD.
  assert (E : run_retrieval_query G cs
              = RowSort.sort
                  (map (fun c => grouping_key G (fst c) (snd c)
                                 ++ [("userRating", avg (ratings_into G (fst c)))])
                       (filter (rated G) cs))).
  { unfold run_retrieval_query, group_bindings.
    rewrite (fold_distinct G cs [] HD (fun _ _ => eq_refl)). simpl.
    unfold groups_of_candidates. rewrite map_map. reflexivity. }
  split; [exact E | ].
  rewrite E, <- (Permutation_length (RowSort.Permuted_sort _)), length_map.
  reflexivity.
Qed.

Lemma one_record_per_rated_candidate_witness :
  List.length (run_retrieval_query Sample.movies Sample.hits) = 2.
Proof.
  rewrite (proj2 (one_record_per_rated_candidate Sample.movies Sample.hits eq_refl)).
  reflexivity.
Defined.

(** ** Candidates that agree on every key column *)

Lemma sort_one : forall row, RowSort.sort [row] = [row].
Proof. reflexivity. Qed.

(** The grouping key holds no node identity: two rated candidates that
    agree on title, plot, score, genres, actors and directors end up in one
    record, whose [userRating] averages the ratings of both nodes. *)
Theorem equal_keys_share_a_record :
  forall (G : graph) n1 s1 n2 s2,
    rated G (n1, s1) = true ->
    row_eqb (grouping_key G n2 s2) (grouping_key G n1 s1) = true ->
    run_retrieval_query G [(n1, s1); (n2, s2)]
    = [ grouping_key G n1 s1
        ++ [("userRating", avg (ratings_into G n1 ++ ratings_into G n2))] ].
Proof.
  intros G n1 s1 n2 s2 HR HE.
  unfold run_retrieval_query, group_bindings. simpl flat_map.
  rewrite app_nil_r, fold_left_app.
  rewrite (fold_candidate G (n1, s1) [] eq_refl), HR.
  unfold match_rated. cbn [fst snd].
  rewrite (fold_into_last G n2 s2 (grouping_key G n1 s1) _ (ratings_into G n1) []
             eq_refl HE).
  reflexivity.
Qed.

Lemma equal_keys_share_a_record_witness :
  map (lookup "userRating")
      (run_retrieval_query Sample.remakes [(0, (9 # 10)%Q); (1, (9 # 10)%Q)])
  = [Some (VNum (7 # 2))].
Proof.
  exact (f_equal (map (lookup "userRating"))
           (equal_keys_share_a_record Sample.remakes 0 (9 # 10) 1 (9 # 10)
              eq_refl eq_refl)).
Defined.

(** ** What the query reads *)

Lemma filter_through : forall (p keep : relationship -> bool) l,
  (forall r, p r = true -> keep r = true) ->
  filter p (filter keep l) = filter p l.
Proof.
  intros p keep l H. induction l as [ | r l IH]; simpl; [reflexivity | ].
  destruct (keep r) eqn:K; simpl.
  - rewrite IH. reflexivity.
  - destruct (p r) eqn:P; [rewrite (H r P) in K; discriminate K | exact IH].
Qed.

Lemma read_by_query_type : forall ty r,
  ty = "RATED" \/ ty = "IN_GENRE" \/ ty = "ACTED_IN" \/ ty = "DIRECTED" ->
  (rtype r =? ty)%string = true -> read_by_query r = true.
Proof.
  intros ty r Hty E. apply String.eqb_eq in E. unfold read_by_query. rewrite E.
  destruct Hty as [-> | [-> | [-> | ->]]]; reflexivity.
Qed.

Lemma restrict_key : forall G n s,
  grouping_key (restrict G) n s = grouping_key G n s.
Proof.
  intros G n s. unfold grouping_key, genres_of, actors_of, directors_of,
    related_names, prop, restrict. simpl.
  rewrite !filter_through; [reflexivity | | | ];
    intros r H; apply andb_true_iff in H; destruct H as [H _];
    eapply read_by_query_type; try exact H; auto.
Qed.

Lemma restrict_match : forall G c,
  match_rated (restrict G) c = match_rated G c.
Proof.
  intros G c. unfold match_rated, restrict. simpl.
  rewrite filter_through; [reflexivity | ].
  intros r H. apply andb_true_iff in H. destruct H as [H _].
  eapply read_by_query_type; try exact H; auto.
Qed.

Lemma restrict_fold : forall G bs gs,
  fold_left (add_binding (restrict G)) bs gs = fold_left (add_binding G) bs gs.
Proof.
  intros G bs. induction bs as [ | b bs IH]; simpl; intros gs; [reflexivity | ].
  rewrite IH. unfold add_binding. rewrite restrict_key. reflexivity.
Qed.

(** The query reads four relationship types and no other: relationships of
    any other type can be added to the graph, or removed from it, without
    changing the records returned. *)
Theorem other_relationships_are_not_read :
  forall (G : graph) (cs : list candidate),
    run_retrieval_query (restrict G) cs = run_retrieval_query G cs.
Proof.
  intros G cs. unfold run_retrieval_query, group_bindings.
  rewrite restrict_fold. f_equal. f_equal. f_equal.
  induction cs as [ | c cs IH]; simpl; [reflexivity | ].
  rewrite restrict_match, IH. reflexivity.
Qed.

(** ** The two-headed patterns *)

(** The script's closing note reads [actors] as the names of the nodes
    with an ACTED_IN relationship pointing to the node.  The query writes
    the pattern with an arrow head at both ends, which matches either
    direction.  On a graph that follows the movie schema the two agree for
    a Movie node, for [actors] and for [directors]. *)
Theorem two_headed_patterns_read_incoming :
  forall (G : graph) (n : node_id),
    names_schema G = true ->
    has_label G n "Movie" = true ->
    actors_of G n = incoming_names G "ACTED_IN" n
    /\ directors_of G n = incoming_names G "DIRECTED" n.
Proof.
  intros G n HS Hn.
  assert (K : forall ty, ty = "ACTED_IN" \/ ty = "DIRECTED" ->
                         related_names G ty n = incoming_names G ty n).
  { intros ty Hty. unfold related_names, incoming_names. f_equal.
    assert (F : filter (fun r => (rtype r =? ty)%string && touches n r) (rels G)
                = filter (fun r => (rtype r =? ty)%string && (rend r =? n)) (rels G)).
    { apply filter_ext_in. intros r Hr.
      destruct (rtype r =? ty)%string eqn:Et; [simpl | reflexivity].
      apply String.eqb_eq in Et.
      assert (Hty' : rtype r = "ACTED_IN" \/ rtype r = "DIRECTED")
        by (rewrite Et; exact Hty).
      destruct (proj2 (names_schema_rel G r HS Hr) Hty') as [_ [Hnot _]].
      unfold touches. destruct (rstart r =? n) eqn:Es; [ | reflexivity].
      apply Nat.eqb_eq in Es. rewrite Es in Hnot. congruence. }
    rewrite F. apply map_ext_in. intros r Hr. apply filter_In in Hr.
    destruct Hr as [_ Hr]. apply andb_true_iff in Hr. destruct Hr as [_ He].
    unfold other_end. rewrite He. reflexivity. }
  split; apply K; auto.
Qed.

Lemma two_headed_patterns_read_incoming_witness :
  actors_of Sample.movies 1 = incoming_names Sample.movies "ACTED_IN" 1
  /\ directors_of Sample.movies 1 = incoming_names Sample.movies "DIRECTED" 1.
Proof.
  apply (two_headed_patterns_read_incoming Sample.movies 1); reflexivity.
Defined.

Lemma other_relationships_are_not_read_witness :
  run_retrieval_query Sample.movies_and_follows Sample.hits
  = run_retrieval_query Sample.movies Sample.hits.
Proof.
  rewrite <- (other_relationships_are_not_read Sample.movies_and_follows Sample.hits).
  reflexivity.
Defined.

(* ================================================================== *)
(** * Further properties of the script *)

(** The script catches nothing.  Every call before its last one returned;
    when it ends with an exception, that is the exception its last call
    raised, unchanged, or the AttributeError of reading [.items] on a
    response without retriever result; when it ends normally, no call
    raised. *)
Theorem exceptions_end_the_script :
  forall w q,
    all_returned w [] (removelast (trace w (script q)))
    /\ (forall x, outcome w (script q) = inl x ->
          (exists pre ev, trace w (script q) = pre ++ [ev]
                          /\ raises w pre ev = Some x)
          \/ (x = "AttributeError"
              /\ retriever_result (the_response w q) = None))
    /\ (outcome w (script q) = inr tt ->
        all_returned w [] (trace w (script q))).
Proof.
  intros w q. split; [ | split].
  - assert (K : forall tr, tr = trace w (script q) ->
                           all_returned w [] (removelast tr));
      [ | exact (K _ eq_refl)].
    intros tr. expose_calls. walk; intros ->; cbn; repeat split; assumption.
  - intros x. expose_calls. walk; intros H; try discriminate H; injection H as <-;
      try (right; split; [reflexivity | first [assumption | reflexivity]]);
      left;
      match goal with
      | |- exists pre ev, ?tr = _ /\ _ => exists (removelast tr), (last tr EvLoadDotenv)
      end;
      cbn; (split; [reflexivity | assumption]).
  - assert (K : forall tr, tr = trace w (script q) ->
                           outcome w (script q) = inr tt -> all_returned w [] tr);
      [ | exact (K _ eq_refl)].
    intros tr. expose_calls. walk; intros -> H; try discriminate H.
    cbn. repeat split; assumption.
Qed.

Lemma exceptions_end_the_script_witness :
  (exists pre ev, trace Sample.search_fails main = pre ++ [ev]
                  /\ raises Sample.search_fails pre ev = Some "LLMGenerationError")
  \/ ("LLMGenerationError" = "AttributeError"
      /\ retriever_result (the_response Sample.search_fails query_text) = None).
Proof.
  apply (proj1 (proj2 (exceptions_end_the_script Sample.search_fails query_text))).
  reflexivity.
Defined.

(** Nothing is written to standard output unless [rag.search] was called
    and returned: a run that ends before or in the search prints nothing. *)
Theorem output_only_after_search :
  forall w q line,
    In line (stdout (trace w (script q))) ->
    exists pre post,
      trace w (script q) = pre ++ EvSearch (the_rag w) q 5 true :: post
      /\ raises w pre (EvSearch (the_rag w) q 5 true) = None.
Proof.
  intros w q line. expose_calls. walk; intros H; try contradiction;
    match goal with
    | |- exists pre post, ?tr = _ /\ _ => exists (firstn 6 tr), (skipn 7 tr)
    end;
    cbn; (split; [reflexivity | assumption]).
Qed.

Lemma output_only_after_search_witness :
  exists pre post,
    trace Sample.calm main
    = pre ++ EvSearch (the_rag Sample.calm) query_text 5 true :: post
    /\ raises Sample.calm pre (EvSearch (the_rag Sample.calm) query_text 5 true) = None.
Proof.
  apply (output_only_after_search Sample.calm query_text "Interstellar").
  left. reflexivity.
Defined.

(** Everything the script does before the search is the same whatever the
    query text: in one world, two runs on different query texts make the
    same first six calls, with the same arguments. *)
Theorem setup_ignores_the_query_text :
  forall w q1 q2,
    firstn 6 (trace w (script q1)) = firstn 6 (trace w (script q2)).
Proof.
  intros w q1 q2. expose_calls. walk; reflexivity.
Qed.

(** One Connection: the driver is built at most once and closed at most
    once, and every call that carries a driver (building the retriever and
    the pipeline, searching, closing) carries the one built from the three
    environment variables. *)
Theorem one_connection :
  forall w q,
    List.length (filter is_open (trace w (script q))) <= 1
    /\ List.length (filter is_close (trace w (script q))) <= 1
    /\ forall ev d, In ev (trace w (script q)) -> driver_of ev = Some d ->
                    d = the_driver w.
Proof.
  intros w q. split; [ | split].
  - expose_calls. walk; cbn; lia.
  - expose_calls. walk; cbn; lia.
  - intros ev d. expose_calls. walk; intros Hin Hd;
      repeat (destruct Hin as [<- | Hin];
              [cbn in Hd; first [discriminate Hd | injection Hd as <-; reflexivity] | ]);
      contradiction.
Qed.

Lemma one_connection_witness :
  the_driver Sample.calm
  = {| d_uri := Some "neo4j://localhost:7687";
       d_auth := (Some "neo4j", Some "secret") |}.
Proof.
  symmetry.
  apply (proj2 (proj2 (one_connection Sample.calm query_text))
           (EvClose {| d_uri := Some "neo4j://localhost:7687";
                       d_auth := (Some "neo4j", Some "secret") |})).
  - cbn. do 9 right. left. reflexivity.
  - reflexivity.
Defined.
